(** * wallpicker.py: a shallow embedding and its verified properties

    The program is a wallpaper chooser: it lists the images of a folder,
    lays their thumbnails out in a square window, and on a click runs a
    chain of external tools.  The embedding follows [src/wallpicker.py]
    function by function:

    - Python values that the program inspects (strings, JSON documents,
      directory listings) are ordinary Rocq data;
    - the outside world (which binaries exist, how they exit, what the
      palette file holds, what the folder contains) is an explicit [Env];
    - code that spawns processes, prints or raises lives in a small
      trace-and-exception monad [M], so that "which commands were attempted,
      in which order" is a value one can state theorems about;
    - the Qt widget tree is the list of cells put into the grid layout. *)

From Stdlib Require Import ZArith Lia List Bool String Ascii.
From Stdlib Require Import Sorted Permutation.
From Stdlib Require Import Reals Lra.
Import ListNotations.

Local Open Scope string_scope.
Local Open Scope Z_scope.

(** ** The Python library functions the program calls *)

Module Py.

(** The exception classes that can reach the program.  All of them derive
    from [Exception]; only [FileNotFoundError] is singled out by a handler
    of the program. *)
Inductive exn : Type :=
| FileNotFoundError            (* spawn: no such binary *)
| PermissionError              (* spawn: binary present, not executable *)
| CalledProcessError (code : Z)(* subprocess.run(check=True), exit <> 0 *)
| OpenError                    (* open() on an unreadable path *)
| JSONDecodeError              (* json.load on a malformed document *)
| KeyError (key : string)      (* d[k] with k absent *)
| TypeError                    (* x[k] on a non-mapping *)
| AttributeError.              (* x.lstrip on a non-string *)

Definition is_FileNotFoundError (e : exn) : bool :=
  match e with FileNotFoundError => true | _ => false end.

(** [except Exception] matches every class above. *)
Definition is_Exception (e : exn) : bool := true.

(** *** str methods (on byte strings; case mapping restricted to ASCII,
    which is exact for every character the program compares against) *)

Definition ascii_lower (c : ascii) : ascii :=
  let n := nat_of_ascii c in
  if ((65 <=? n) && (n <=? 90))%nat then ascii_of_nat (n + 32) else c.

Definition ascii_upper (c : ascii) : ascii :=
  let n := nat_of_ascii c in
  if ((97 <=? n) && (n <=? 122))%nat then ascii_of_nat (n - 32) else c.

Fixpoint map_string (f : ascii -> ascii) (s : string) : string :=
  match s with
  | EmptyString => EmptyString
  | String c r => String (f c) (map_string f r)
  end.

Definition lower : string -> string := map_string ascii_lower.
Definition upper : string -> string := map_string ascii_upper.

Fixpoint mem_ascii (c : ascii) (chars : string) : bool :=
  match chars with
  | EmptyString => false
  | String d r => Ascii.eqb c d || mem_ascii c r
  end.

(** [s.lstrip(chars)]: drop leading characters while they belong to
    [chars]. *)
Fixpoint lstrip (chars s : string) : string :=
  match s with
  | EmptyString => EmptyString
  | String c r => if mem_ascii c chars then lstrip chars r else s
  end.

(** [s.rfind(ch)]: index of the last occurrence, [None] for -1. *)
Fixpoint rfind (ch : ascii) (s : string) : option nat :=
  match s with
  | EmptyString => None
  | String c r =>
      match rfind ch r with
      | Some i => Some (S i)
      | None => if Ascii.eqb c ch then Some 0%nat else None
      end
  end.

(** [PurePath.suffix] of a final path component:
    [i = name.rfind('.')]; the suffix is [name[i:]] when
    [0 < i < len(name) - 1] and [''] otherwise. *)
Definition suffix (name : string) : string :=
  match rfind "."%char name with
  | Some i =>
      if ((0 <? i) && (i <? String.length name - 1))%nat
      then substring i (String.length name - i) name
      else ""
  | None => ""
  end.

(** [os.path.basename]: what follows the last slash. *)
Definition basename (p : string) : string :=
  match rfind "/"%char p with
  | Some i => substring (S i) (String.length p - S i) p
  | None => p
  end.

(** [str(p / name)] for the str [p] of a path: [.] has no parts, and the
    root already ends in a slash. *)
Fixpoint ends_with (ch : ascii) (s : string) : bool :=
  match s with
  | EmptyString => false
  | String c EmptyString => Ascii.eqb c ch
  | String _ r => ends_with ch r
  end.

Definition joinpath (p name : string) : string :=
  if String.eqb p "." then name
  else if ends_with "/"%char p then p ++ name
  else p ++ "/" ++ name.

(** [x in tuple_of_strings]. *)
Definition str_in (s : string) (l : list string) : bool :=
  existsb (String.eqb s) l.

(** *** sorted()
    Paths that share a parent compare by their final component, and str
    compares lexicographically by code point.  [sorted] is stable; a stable
    insertion sort computes the same list. *)
Section Sorted.
Context {A : Type} (key : A -> string).

Fixpoint insert (x : A) (l : list A) : list A :=
  match l with
  | [] => [x]
  | y :: r => if String.leb (key x) (key y) then x :: l
              else y :: insert x r
  end.

Fixpoint sorted (l : list A) : list A :=
  match l with
  | [] => []
  | x :: r => insert x (sorted r)
  end.
End Sorted.

(** *** Decoded JSON documents (what [json.load] returns) *)
#[warnings="-register-all"]
Inductive json : Type :=
| JNull
| JBool (b : bool)
| JInt (n : Z)
| JFloat (lexeme : string)
| JStr (s : string)
| JArr (items : list json)
| JObj (members : list (string * json)).  (* a dict: first binding wins *)

Fixpoint assoc {V : Type} (k : string) (l : list (string * V)) : option V :=
  match l with
  | [] => None
  | (k', v) :: r => if String.eqb k k' then Some v else assoc k r
  end.

(** *** math.ceil(math.sqrt(n)) and math.ceil(n / c) on integers.
    Python evaluates both in binary64.  The square root is correctly
    rounded and the quotient of two ints is too, so for every count below
    2^52 (a directory listing is far smaller) the rounded value lies on the
    same side of each integer as the exact one, and [math.ceil] returns the
    exact ceiling.  The embedding computes that exact ceiling. *)
Definition ceil_sqrt (n : Z) : Z :=
  let s := Z.sqrt n in
  if s * s =? n then s else s + 1.

Definition ceil_div (n c : Z) : Z :=
  let q := n / c in
  if n mod c =? 0 then q else q + 1.

End Py.

Import Py.

(** ** The outside world *)

Definition argv := list string.

(** What happens when a command line is launched.  A child is described by
    the status it exits with; [subprocess.run] on a child that never exits
    does not return, and such runs are not described here.  The answers of
    the environment do not change while one function of the program runs. *)
Inductive outcome : Type :=
| NotFound               (* no such binary on PATH *)
| NotExecutable          (* found, but the spawn is refused *)
| Exited (code : Z).     (* spawned; its exit status once it ends *)

(** The palette artifact [~/.cache/wal/colors.json]. *)
Inductive palette_file : Type :=
| Absent                       (* [exists()] is false *)
| Unloadable (e : exn)         (* present; [open]/[json.load] raises [e] *)
| Loaded (doc : json).         (* present; decodes to [doc] *)

(** Kinds of directory entries. *)
Inductive kind : Type := RegularFile | Directory | Symlink | Other.

Record dirent : Type := { d_name : string; d_kind : kind }.

(** What a path names. *)
Inductive node : Type :=
| Missing
| NotDir
| Dir (entries : list dirent).  (* in the order [iterdir] yields them *)

Record Env : Type := {
  proc : argv -> outcome;              (* behaviour of each command line *)
  palette : palette_file;
  expand : string -> string;           (* str(Path(folder).expanduser()),
                                          for a home that can be determined *)
  stat : string -> node;               (* the file system, by expanded path *)
  decodes : string -> bool             (* QPixmap(path) is not null *)
}.

(** ** Traces and exceptions *)

Inductive event : Type :=
| Spawn (cmd : argv)               (* subprocess.Popen: launched, not awaited *)
| Run (cmd : argv)                 (* subprocess.run: launched and awaited *)
| Print (msg : string) (e : option exn).

Inductive result (A : Type) : Type :=
| Ok (a : A)
| Raise (e : exn).
Arguments Ok {A} a.
Arguments Raise {A} e.

(** A computation extends the trace of events seen so far and either
    returns or raises.  The trace survives a raise: a process that was
    launched stays launched. *)
Definition M (A : Type) : Type := list event -> result A * list event.

Definition ret {A} (a : A) : M A := fun t => (Ok a, t).

Definition bind {A B} (c : M A) (k : A -> M B) : M B :=
  fun t => match c t with
           | (Ok a, t') => k a t'
           | (Raise e, t') => (Raise e, t')
           end.

Definition raise {A} (e : exn) : M A := fun t => (Raise e, t).

Definition emit (ev : event) : M unit := fun t => (Ok tt, (t ++ [ev])%list).

(** [try: c  except <class> as e: h e] *)
Definition try_except {A} (c : M A) (class : exn -> bool) (h : exn -> M A)
  : M A :=
  fun t => match c t with
           | (Ok a, t') => (Ok a, t')
           | (Raise e, t') => if class e then h e t' else (Raise e, t')
           end.

Notation "x <- c ;; k" := (bind c (fun x => k))
  (at level 61, c at next level, right associativity).
Notation "c ;;; k" := (bind c (fun _ => k))
  (at level 61, right associativity).

Section Program.

Variable env : Env.

(** *** subprocess *)

(** [subprocess.Popen(cmd)]: launch and return at once. *)
Definition Popen (cmd : argv) : M unit :=
  emit (Spawn cmd) ;;;
  match proc env cmd with
  | NotFound => raise FileNotFoundError
  | NotExecutable => raise PermissionError
  | Exited _ => ret tt
  end.

(** [subprocess.run(cmd, check=check)]: launch, wait, and with [check]
    raise on a non-zero exit status. *)
Definition subprocess_run (cmd : argv) (check : bool) : M Z :=
  emit (Run cmd) ;;;
  match proc env cmd with
  | NotFound => raise FileNotFoundError
  | NotExecutable => raise PermissionError
  | Exited code =>
      if check && negb (code =? 0) then raise (CalledProcessError code)
      else ret code
  end.

(** *** Configuration *)

Definition DEFAULT_DIR : string := "/home/harv/Wallpapers/".
Definition SUPPORTED_EXTS : list string :=
  [".jpg"; ".jpeg"; ".png"; ".webp"; ".bmp"; ".gif"].
Definition BORDER_COLOR : string := "color4".

(** *** find_images *)

Definition supported (f : dirent) : bool :=
  str_in (lower (suffix (d_name f))) SUPPORTED_EXTS.

(** [str(f)] for an entry [f] of the directory [p]. *)
Definition entry_path (p : string) (f : dirent) : string :=
  joinpath p (d_name f).

Definition find_images (folder : string) : list string :=
  let p := expand env folder in
  match stat env p with
  | Missing => []
  | NotDir => []
  | Dir entries =>
      map (entry_path p) (filter supported (sorted d_name entries))
  end.

(** *** run_cmd *)

Definition run_cmd (cmd : argv) : M bool :=
  try_except
    (subprocess_run cmd true ;;; ret true)
    is_Exception (fun _ => ret false).

(** *** set_wallpaper_wayland *)

Definition swww (image_path : string) : argv :=
  ["swww"; "img"; image_path; "--output"; "all"].
Definition hyprpaper (image_path : string) : argv :=
  ["hyprpaper"; "--set"; image_path].
Definition swaybg (image_path : string) : argv :=
  ["swaybg"; "-i"; image_path].
Definition feh (image_path : string) : argv :=
  ["feh"; "--bg-scale"; image_path].

Definition set_wallpaper_wayland (image_path : string) : M bool :=
  a <- run_cmd (swww image_path) ;;
  if a then ret true else
  b <- run_cmd (hyprpaper image_path) ;;
  if b then ret true else
  c <- run_cmd (swaybg image_path) ;;
  if c then ret true else
  d <- run_cmd (feh image_path) ;;
  if d then ret true else
  ret false.

(** *** set_hyprland_border_from_wal *)

(** [x[key]] for a str [key]. *)
Definition subscript (x : json) (key : string) : M json :=
  match x with
  | JObj members =>
      match assoc key members with
      | Some v => ret v
      | None => raise (KeyError key)
      end
  | _ => raise TypeError
  end.

(** [x.lstrip(chars)]: only str has the method. *)
Definition lstrip_method (x : json) (chars : string) : M string :=
  match x with
  | JStr s => ret (lstrip chars s)
  | _ => raise AttributeError
  end.

(** [json.load(open(wal_colors))] *)
Definition load_palette : M json :=
  match palette env with
  | Absent => raise OpenError
  | Unloadable e => raise e
  | Loaded doc => ret doc
  end.

Definition palette_exists : bool :=
  match palette env with Absent => false | _ => true end.

Definition hyprctl (col : string) : argv :=
  ["hyprctl"; "keyword"; "col.active_border"; col].

Definition set_hyprland_border_from_wal : M unit :=
  if negb palette_exists then ret tt else
  try_except
    (data <- load_palette ;;
     colors <- subscript data "colors" ;;
     slot <- subscript colors BORDER_COLOR ;;
     hexcol <- lstrip_method slot "#" ;;
     let col := "0x" ++ upper hexcol in
     subprocess_run (hyprctl col) false ;;;
     ret tt)
    is_Exception
    (fun e => emit (Print "Failed to set Hyprland border color:" (Some e))).

(** *** WallPicker.on_select *)

Definition on_select (path : string) : M unit :=
  Popen ["wal"; "-i"; path] ;;;
  try_except (Popen ["walcord"]) is_FileNotFoundError (fun _ => ret tt) ;;;
  set_wallpaper_wayland path ;;;
  set_hyprland_border_from_wal ;;;
  try_except (Popen ["spicetify"; "apply"]) is_FileNotFoundError
    (fun _ => emit (Print "Spicetify not installed, skipping..." None)).

(** *** The widget state of WallPicker *)

(** A QPushButton, by the setters the program calls on it. *)
Record QPushButton : Type := {
  text : string;
  enabled : bool;                 (* setEnabled *)
  tooltip : option string;        (* setToolTip *)
  icon_size : option (Z * Z);     (* setIcon + setIconSize, when decodable *)
  fixed_size : option (Z * Z);    (* setFixedSize *)
  clicked : option string         (* the path bound by the click handler *)
}.

(** One [addWidget(widget, row, col)]. *)
Record cell : Type := { c_widget : QPushButton; c_row : Z; c_col : Z }.

Record QMargins : Type := { left : Z; right : Z; top : Z; bottom : Z }.

Record WallPicker : Type := {
  width : Z;
  height : Z;
  contentsMargins : QMargins;     (* self.grid.contentsMargins() *)
  spacing : Z;                    (* self.grid.spacing() *)
  image_dir : string;
  images : list string;
  grid : list cell                (* the items of self.grid, in order *)
}.

Definition set_images (self : WallPicker) (l : list string) : WallPicker :=
  {| width := width self; height := height self;
     contentsMargins := contentsMargins self; spacing := spacing self;
     image_dir := image_dir self; images := l; grid := grid self |}.

Definition set_grid (self : WallPicker) (g : list cell) : WallPicker :=
  {| width := width self; height := height self;
     contentsMargins := contentsMargins self; spacing := spacing self;
     image_dir := image_dir self; images := images self; grid := g |}.

Definition addWidget (self : WallPicker) (w : QPushButton) (row col : Z)
  : WallPicker :=
  set_grid self
    (grid self ++ [{| c_widget := w; c_row := row; c_col := col |}])%list.

(** [while self.grid.count(): self.grid.takeAt(0)...] *)
Fixpoint take_all (items : list cell) : list cell :=
  match items with
  | [] => []
  | _ :: rest => take_all rest
  end.

Definition clear_grid (self : WallPicker) : WallPicker :=
  set_grid self (take_all (grid self)).

(** [enumerate(l)], counting from [start]. *)
Fixpoint enumerate_from {A : Type} (start : Z) (l : list A) : list (Z * A) :=
  match l with
  | [] => []
  | x :: r => (start, x) :: enumerate_from (start + 1) r
  end.

Definition enumerate {A : Type} (l : list A) : list (Z * A) :=
  enumerate_from 0 l.

(** The placeholder of an empty folder. *)
Definition placeholder (dir : string) : QPushButton :=
  {| text := "No images found" ++ String "010"%char dir;
     enabled := false; tooltip := None; icon_size := None;
     fixed_size := None; clicked := None |}.

(** The button of one image. *)
Definition thumbnail (thumb_side : Z) (imgpath : string) : QPushButton :=
  {| text := "";
     enabled := true;
     tooltip := Some (basename imgpath);
     icon_size := if decodes env imgpath
                  then Some (thumb_side, thumb_side) else None;
     fixed_size := Some (thumb_side, thumb_side);
     clicked := Some imgpath |}.

(** The grid arithmetic of [populate], by the names the source gives. *)
Definition grid_cols (n : Z) : Z := ceil_sqrt n.
Definition grid_rows (n : Z) : Z := ceil_div n (grid_cols n).

Definition available_w (self : WallPicker) : Z :=
  width self - (left (contentsMargins self) + right (contentsMargins self)).
Definition available_h (self : WallPicker) : Z :=
  height self - (top (contentsMargins self) + bottom (contentsMargins self)).

Definition thumb_side_w (self : WallPicker) (cols : Z) : Z :=
  (available_w self - (cols - 1) * spacing self) / cols.
Definition thumb_side_h (self : WallPicker) (rows : Z) : Z :=
  (available_h self - (rows - 1) * spacing self) / rows.
Definition thumb_side (self : WallPicker) (rows cols : Z) : Z :=
  Z.min (thumb_side_w self cols) (thumb_side_h self rows).

(** *** WallPicker.populate *)
Definition populate (self : WallPicker) : WallPicker :=
  let self := set_images self (find_images (image_dir self)) in
  let n := Z.of_nat (List.length (images self)) in
  if n =? 0 then
    let self := clear_grid self in
    addWidget self (placeholder (image_dir self)) 0 0
  else
    let cols := grid_cols n in
    let rows := grid_rows n in
    let self := clear_grid self in
    let side := thumb_side self rows cols in
    fold_left
      (fun self '(idx, imgpath) =>
         addWidget self (thumbnail side imgpath) (idx / cols) (idx mod cols))
      (enumerate (images self)) self.

(** *** WallPicker.refresh *)
Definition refresh (self : WallPicker) : WallPicker := populate self.

(** *** WallPicker.__init__, for a primary screen of [sw] x [sh] pixels.
    [int(min(sw * 0.5, sh * 0.5))] truncates the half of the smaller side. *)
Definition init (sw sh : Z) (dir : string) : WallPicker :=
  let side := Z.quot (Z.min sw sh) 2 in
  populate
    {| width := side; height := side;
       contentsMargins := {| left := 4; right := 4; top := 4; bottom := 4 |};
       spacing := 4;
       image_dir := dir; images := []; grid := [] |}.

End Program.

(** ** Vocabulary of the statements *)

(** A command line succeeds when it is spawned and exits with status 0. *)
Definition succeeds (env : Env) (cmd : argv) : bool :=
  match proc env cmd with
  | Exited code => code =? 0
  | _ => false
  end.

(** The command lines a trace launched, in order. *)
Definition commands (t : list event) : list argv :=
  flat_map (fun ev => match ev with
                      | Spawn cmd => [cmd]
                      | Run cmd => [cmd]
                      | Print _ _ => []
                      end) t.

(** The wallpaper backends A, B, C, D in priority order. *)
Definition backends (image_path : string) : list argv :=
  [swww image_path; hyprpaper image_path; swaybg image_path; feh image_path].

(** Walking a priority list: every entry up to and including the first
    that succeeds. *)
Fixpoint tried (ok : argv -> bool) (l : list argv) : list argv :=
  match l with
  | [] => []
  | cmd :: rest => cmd :: if ok cmd then [] else tried ok rest
  end.

(** The designated slot of the palette: the str found at
    [colors][BORDER_COLOR] of a palette file that loads; [None] when the file
    is absent, does not load, or holds no str there. *)
Definition slot_value (p : palette_file) : option string :=
  match p with
  | Loaded (JObj top) =>
      match assoc "colors" top with
      | Some (JObj colors) =>
          match assoc BORDER_COLOR colors with
          | Some (JStr s) => Some s
          | _ => None
          end
      | _ => None
      end
  | _ => None
  end.

(** Upper-casing as a table: the letter at some position of the small
    alphabet becomes the letter at that position of the capital alphabet,
    and any other character stays. *)
Fixpoint translate (from to : string) (c : ascii) : ascii :=
  match from, to with
  | String a from', String b to' =>
      if Ascii.eqb c a then b else translate from' to' c
  | _, _ => c
  end.

Definition to_upper : ascii -> ascii :=
  translate "abcdefghijklmnopqrstuvwxyz" "ABCDEFGHIJKLMNOPQRSTUVWXYZ".

(** [k] number signs. *)
Fixpoint hashes (k : nat) : string :=
  match k with
  | O => ""
  | S k' => String "#" (hashes k')
  end.

(** Does [s] start with a number sign? *)
Definition leading_hash (s : string) : bool :=
  match s with
  | String c _ => Ascii.eqb c "#"
  | EmptyString => false
  end.

(** A desktop on which every tool is installed and exits with status 0,
    the palette holds [#aabbcc] in the designated slot, and the folder [/w]
    holds [b.png], [A.JPG] and [c.txt]. *)
Definition desktop : Env :=
  {| proc := fun _ => Exited 0;
     palette :=
       Loaded (JObj [("special", JObj []);
                     ("colors", JObj [("color0", JStr "#101010");
                                      ("color4", JStr "#aabbcc")])]);
     expand := fun p => p;
     stat := fun p =>
       if String.eqb p "/w"
       then Dir [ {| d_name := "b.png"; d_kind := RegularFile |};
                  {| d_name := "A.JPG"; d_kind := RegularFile |};
                  {| d_name := "c.txt"; d_kind := RegularFile |} ]
       else Missing;
     decodes := fun _ => true |}.

(** The same desktop without some binaries. *)
Definition without (missing : list string) (env : Env) : Env :=
  {| proc := fun cmd =>
       match cmd with
       | prog :: _ => if str_in prog missing then NotFound else proc env cmd
       | [] => proc env cmd
       end;
     palette := palette env; expand := expand env; stat := stat env;
     decodes := decodes env |}.

(** The order [sorted] sorts by. *)
Definition key_le {A : Type} (key : A -> string) (x y : A) : Prop :=
  String.leb (key x) (key y) = true.

(** [supported], on a file name. *)
Definition supported_name (name : string) : bool :=
  str_in (lower (suffix name)) SUPPORTED_EXTS.

(** [f.is_file()] without following links. *)
Definition is_regular (f : dirent) : bool :=
  match d_kind f with RegularFile => true | _ => false end.

(** Discovery as the specification words it: the regular files directly
    inside the directory whose extension is supported, sorted by file name;
    nothing for a path that is missing or not a directory. *)
Definition discovery_spec (env : Env) (folder : string) : list string :=
  let p := expand env folder in
  match stat env p with
  | Dir entries =>
      map (entry_path p)
        (sorted d_name (filter (fun f => is_regular f && supported f) entries))
  | _ => []
  end.


(** The cell of the image at position [idx] of the listing. *)
Definition image_cell (env : Env) (side cols : Z) (ip : Z * string) : cell :=
  {| c_widget := thumbnail env side (snd ip);
     c_row := fst ip / cols;
     c_col := fst ip mod cols |}.

(** The only cell of an empty listing. *)
Definition placeholder_cell (dir : string) : cell :=
  {| c_widget := placeholder dir; c_row := 0; c_col := 0 |}.

(** The grid a window shows after [populate], from its geometry and the
    folder alone. *)
Definition layout (env : Env) (self : WallPicker) : list cell :=
  let imgs := find_images env (image_dir self) in
  let n := Z.of_nat (List.length imgs) in
  if n =? 0 then [placeholder_cell (image_dir self)]
  else map (image_cell env
              (thumb_side self (grid_rows n) (grid_cols n)) (grid_cols n))
           (enumerate imgs).

(** The window as [__init__] leaves it just before it calls [populate]. *)
Definition fresh_window (sw sh : Z) (dir : string) : WallPicker :=
  {| width := Z.quot (Z.min sw sh) 2; height := Z.quot (Z.min sw sh) 2;
     contentsMargins := {| left := 4; right := 4; top := 4; bottom := 4 |};
     spacing := 4;
     image_dir := dir; images := []; grid := [] |}.

(** Where [__init__] moves the window: [(s.width() - side) // 2] and
    [(s.height() - side) // 2]. *)
Definition self_center_x (sw side : Z) : Z := (sw - side) / 2.
Definition self_center_y (sh side : Z) : Z := (sh - side) / 2.

(** Can the command line be launched at all? *)
Definition spawns (env : Env) (cmd : argv) : bool :=
  match proc env cmd with
  | Exited _ => true
  | _ => false
  end.

(** The line the accent-colour step prints when it fails. *)
Definition border_message : string := "Failed to set Hyprland border color:".

(** The environment [env] with the directory listing [l] under every path. *)
Definition with_listing (l : list dirent) (env : Env) : Env :=
  {| proc := proc env; palette := palette env; expand := expand env;
     stat := fun _ => Dir l; decodes := decodes env |}.

(** Three entries of a wallpaper folder, and the same in another order. *)
Definition three_files : list dirent :=
  [ {| d_name := "b.png"; d_kind := RegularFile |};
    {| d_name := "A.JPG"; d_kind := RegularFile |};
    {| d_name := "c.txt"; d_kind := RegularFile |} ].

Definition three_files_swapped : list dirent :=
  [ {| d_name := "A.JPG"; d_kind := RegularFile |};
    {| d_name := "b.png"; d_kind := RegularFile |};
    {| d_name := "c.txt"; d_kind := RegularFile |} ].

(** * Proofs *)

(** ** run_cmd *)

Lemma run_cmd_eq (env : Env) (cmd : argv) (t : list event) :
  run_cmd env cmd t = (Ok (succeeds env cmd), (t ++ [Run cmd])%list).
Proof.
  unfold run_cmd, try_except, subprocess_run, bind, emit, succeeds.
  destruct (proc env cmd) as [| |code]; cbn; try reflexivity.
  destruct (code =? 0); reflexivity.
Qed.

(** C9. [run_cmd] always returns and never raises: from any trace it
    launches the command once and answers with a boolean, which is [true]
    exactly when the command was spawned and exited with status 0; a missing
    binary, a refused spawn and a non-zero status all give [false]. *)
Theorem run_cmd_total (env : Env) (cmd : argv) (t : list event) :
  exists b : bool,
    run_cmd env cmd t = (Ok b, (t ++ [Run cmd])%list)
    /\ (b = true <-> proc env cmd = Exited 0)
    /\ (b = false <->
        proc env cmd = NotFound \/ proc env cmd = NotExecutable
        \/ exists code, code <> 0 /\ proc env cmd = Exited code).
Proof.
  exists (succeeds env cmd). split; [apply run_cmd_eq|].
  unfold succeeds. destruct (proc env cmd) as [| |code]; cbn.
  - repeat split; intros; try discriminate; auto.
  - repeat split; intros; try discriminate; auto.
  - destruct (Z.eqb_spec code 0) as [->|Hne].
    + repeat split; intros H; try discriminate; auto.
      destruct H as [H|[H|[c [Hc H]]]]; try discriminate.
      injection H as <-. contradiction.
    + repeat split; intros H; try discriminate.
      * injection H as ->. contradiction.
      * right. right. exists code. auto.
Qed.

(** ** set_wallpaper_wayland *)

Lemma backends_NoDup (image_path : string) : NoDup (backends image_path).
Proof.
  unfold backends, swww, hyprpaper, swaybg, feh.
  repeat constructor; cbn; intuition discriminate.
Qed.

Lemma tried_incl (ok : argv -> bool) (l : list argv) :
  exists rest, l = (tried ok l ++ rest)%list.
Proof.
  induction l as [|cmd l [rest IH]]; cbn.
  - exists []. reflexivity.
  - destruct (ok cmd).
    + exists l. reflexivity.
    + exists rest. cbn. now rewrite <- IH.
Qed.

Lemma tried_NoDup (ok : argv -> bool) (l : list argv) :
  NoDup l -> NoDup (tried ok l).
Proof.
  intros H. destruct (tried_incl ok l) as [rest E].
  rewrite E in H. now apply NoDup_app_remove_r in H.
Qed.

Lemma set_wallpaper_wayland_eq
  (env : Env) (image_path : string) (t : list event) :
  set_wallpaper_wayland env image_path t =
    (Ok (existsb (succeeds env) (backends image_path)),
     (t ++ map Run (tried (succeeds env) (backends image_path)))%list).
Proof.
  unfold set_wallpaper_wayland, bind, backends. cbn [tried existsb map].
  rewrite run_cmd_eq.
  destruct (succeeds env (swww image_path)); [reflexivity|].
  rewrite run_cmd_eq.
  destruct (succeeds env (hyprpaper image_path));
    [cbn; now rewrite <- app_assoc|].
  rewrite run_cmd_eq.
  destruct (succeeds env (swaybg image_path));
    [cbn; now rewrite <- !app_assoc|].
  rewrite run_cmd_eq.
  destruct (succeeds env (feh image_path));
    cbn; now rewrite <- !app_assoc.
Qed.

(** C3. The wallpaper step walks the backends swww, hyprpaper, swaybg, feh
    in that order: the commands it runs are exactly the backends up to and
    including the first that succeeds, each at most once, and none after it.
    It returns [True] when one succeeded and [False] when all four failed;
    it never raises. *)
Theorem set_wallpaper_wayland_fallback
  (env : Env) (image_path : string) (t : list event) :
  set_wallpaper_wayland env image_path t =
    (Ok (existsb (succeeds env) (backends image_path)),
     (t ++ map Run (tried (succeeds env) (backends image_path)))%list)
  /\ NoDup (tried (succeeds env) (backends image_path))
  /\ tried (succeeds env) (backends image_path) =
       firstn (List.length (tried (succeeds env) (backends image_path)))
              (backends image_path).
Proof.
  split; [apply set_wallpaper_wayland_eq|split].
  - apply tried_NoDup, backends_NoDup.
  - destruct (tried_incl (succeeds env) (backends image_path)) as [rest E].
    rewrite E at 3. now rewrite firstn_app, Nat.sub_diag, firstn_all, app_nil_r.
Qed.

(** If A fails and B succeeds, A and B are run and C and D are not. *)
Lemma fallback_stops_at_second
  (env : Env) (image_path : string) (t : list event) :
  succeeds env (swww image_path) = false ->
  succeeds env (hyprpaper image_path) = true ->
  set_wallpaper_wayland env image_path t =
    (Ok true,
     (t ++ [Run (swww image_path); Run (hyprpaper image_path)])%list).
Proof.
  intros HA HB.
  rewrite set_wallpaper_wayland_eq.
  cbn. rewrite HA, HB. reflexivity.
Qed.

(** ** set_hyprland_border_from_wal *)

Lemma ascii_upper_table (c : ascii) : ascii_upper c = to_upper c.
Proof.
  destruct c as [[] [] [] [] [] [] [] []]; reflexivity.
Qed.

Lemma upper_table (s : string) : upper s = map_string to_upper s.
Proof.
  unfold upper.
  induction s as [|c s IH]; cbn; [reflexivity|].
  now rewrite IH, ascii_upper_table.
Qed.

Lemma lstrip_hashes (k : nat) (h : string) :
  leading_hash h = false -> lstrip "#" (hashes k ++ h) = h.
Proof.
  intros Hh. induction k as [|k IH]; cbn.
  - destruct h as [|c h]; [reflexivity|].
    cbn in Hh |- *. rewrite Hh. reflexivity.
  - exact IH.
Qed.

(** What the border step does, by the slot it finds. *)
Lemma border_step_eq (env : Env) (t : list event) :
  exists t' : list event,
    set_hyprland_border_from_wal env t = (Ok tt, (t ++ t')%list)
    /\ commands t' =
       match slot_value (palette env) with
       | Some s => [hyprctl ("0x" ++ upper (lstrip "#" s))]
       | None => []
       end.
Proof.
  unfold set_hyprland_border_from_wal, palette_exists, load_palette,
    slot_value.
  destruct (palette env) as [|e|doc]; cbn.
  - exists []. now rewrite app_nil_r.
  - eexists; split; reflexivity.
  - unfold try_except, bind, subscript.
    destruct doc as [| | | | | |top];
      try (eexists; split; reflexivity).
    cbn. destruct (assoc "colors" top) as [colors|];
      [|eexists; split; reflexivity].
    cbn. destruct colors as [| | | | | |colors];
      try (eexists; split; reflexivity).
    cbn. destruct (assoc BORDER_COLOR colors) as [slot|];
      [|eexists; split; reflexivity].
    cbn. destruct slot as [| | | |s| |];
      try (eexists; split; reflexivity).
    cbn. unfold subprocess_run, bind, emit.
    destruct (proc env _) as [| |code]; cbn;
      eexists; (split; [rewrite <- ?app_assoc; reflexivity|reflexivity]).
Qed.

(** C7. The accent-colour step never lets an exception out and returns
    normally.  When the palette file is absent, does not load, or has no
    colour in the designated slot, it launches no command at all (it prints
    at most); otherwise it launches exactly one command, [hyprctl keyword
    col.active_border] with the formatted value of the slot. *)
Theorem border_step_guarded (env : Env) (t : list event) :
  exists t' : list event,
    set_hyprland_border_from_wal env t = (Ok tt, (t ++ t')%list)
    /\ match slot_value (palette env) with
       | Some s => commands t' = [hyprctl ("0x" ++ upper (lstrip "#" s))]
       | None => commands t' = []
       end.
Proof.
  destruct (border_step_eq env t) as [t' [E C]].
  exists t'. split; [exact E|].
  destruct (slot_value (palette env)); exact C.
Qed.

(** C10. When the slot holds some number signs followed by [h], the token
    handed to hyprctl is ["0x"] followed by [h] with every letter replaced
    by its capital: the number signs are gone and the hex digits a-f have
    become A-F. *)
Theorem accent_token_format
  (env : Env) (t : list event) (k : nat) (h : string) :
  slot_value (palette env) = Some (hashes k ++ h) ->
  leading_hash h = false ->
  exists t' : list event,
    set_hyprland_border_from_wal env t = (Ok tt, (t ++ t')%list)
    /\ commands t' = [hyprctl ("0x" ++ map_string to_upper h)].
Proof.
  intros Hslot Hh.
  destruct (border_step_eq env t) as [t' [E C]].
  exists t'. split; [exact E|].
  now rewrite C, Hslot, lstrip_hashes, upper_table.
Qed.

(** ** on_select *)

(** When every tool is there, the five steps are launched in order. *)
Lemma on_select_all_steps (path : string) (t : list event) :
  on_select desktop path t =
    (Ok tt,
     (t ++ [Spawn ["wal"; "-i"; path];
            Spawn ["walcord"];
            Run (swww path);
            Run (hyprctl "0xAABBCC");
            Spawn ["spicetify"; "apply"]])%list).
Proof.
  cbv -[List.app]. now rewrite <- !app_assoc.
Qed.

(** A missing walcord or spicetify is skipped and the later steps run. *)
Lemma on_select_optional_tools (path : string) (t : list event) :
  commands (snd (on_select (without ["walcord"; "spicetify"] desktop) path t))
  = (commands t ++ [["wal"; "-i"; path]; ["walcord"]; swww path;
                    hyprctl "0xAABBCC"; ["spicetify"; "apply"]])%list.
Proof.
  change (on_select _ path t) with
    (Ok tt,
     ((((((t ++ [Spawn ["wal"; "-i"; path]]) ++ [Spawn ["walcord"]])
           ++ [Run (swww path)]) ++ [Run (hyprctl "0xAABBCC")])
         ++ [Spawn ["spicetify"; "apply"]])
        ++ [Print "Spicetify not installed, skipping..." None])%list).
  unfold commands. cbn [snd]. rewrite !flat_map_app. cbn.
  now rewrite <- !app_assoc.
Qed.

(** C2, at the input where it fails.  When the [wal] binary is missing, the
    first step raises [FileNotFoundError]; nothing handles it, so it leaves
    [on_select], and the trace ends with the attempt to launch [wal]:
    walcord, the wallpaper backends, hyprctl and spicetify are never
    attempted. *)
Theorem on_select_stops_without_wal
  (env : Env) (path : string) (t : list event) :
  proc env ["wal"; "-i"; path] = NotFound ->
  on_select env path t =
    (Raise FileNotFoundError, (t ++ [Spawn ["wal"; "-i"; path]])%list).
Proof.
  intros H. unfold on_select, bind, Popen, emit. cbn. now rewrite H.
Qed.

Lemma on_select_stops_without_wal_witness :
  proc (without ["wal"] desktop) ["wal"; "-i"; "/w/A.JPG"] = NotFound
  /\ on_select (without ["wal"] desktop) "/w/A.JPG" [] =
       (Raise FileNotFoundError, [Spawn ["wal"; "-i"; "/w/A.JPG"]]).
Proof.
  assert (H : proc (without ["wal"] desktop) ["wal"; "-i"; "/w/A.JPG"]
              = NotFound) by reflexivity.
  split; [exact H|].
  exact (on_select_stops_without_wal (without ["wal"] desktop) "/w/A.JPG" [] H).
Defined.

(** The handlers of steps 2 and 5 match [FileNotFoundError] only: a walcord
    that is present but cannot be executed also ends [on_select] early. *)
Lemma on_select_stops_at_walcord
  (env : Env) (path : string) (t : list event) :
  (exists code, proc env ["wal"; "-i"; path] = Exited code) ->
  proc env ["walcord"] = NotExecutable ->
  on_select env path t =
    (Raise PermissionError,
     (t ++ [Spawn ["wal"; "-i"; path]; Spawn ["walcord"]])%list).
Proof.
  intros [code Hw] Hc.
  unfold on_select, bind, try_except, Popen, emit. cbn.
  rewrite Hw, Hc. cbn. now rewrite <- app_assoc.
Qed.

Lemma border_step_example :
  set_hyprland_border_from_wal desktop [] =
    (Ok tt, [Run (hyprctl "0xAABBCC")]).
Proof. reflexivity. Qed.

Lemma accent_token_format_witness :
  slot_value (palette desktop) = Some (hashes 1 ++ "aabbcc")
  /\ leading_hash "aabbcc" = false
  /\ exists t' : list event,
       set_hyprland_border_from_wal desktop [] = (Ok tt, ([] ++ t')%list)
       /\ commands t' = [hyprctl "0xAABBCC"].
Proof.
  assert (H1 : slot_value (palette desktop) = Some (hashes 1 ++ "aabbcc"))
    by reflexivity.
  assert (H2 : leading_hash "aabbcc" = false) by reflexivity.
  split; [exact H1|split; [exact H2|]].
  exact (accent_token_format desktop [] 1 "aabbcc" H1 H2).
Defined.

(** ** sorted() sorts *)

Lemma string_compare_lt_trans (a b c : string) :
  String.compare a b = Lt -> String.compare b c = Lt ->
  String.compare a c = Lt.
Proof.
  revert b c.
  induction a as [|x a IH]; intros [|y b] [|z c]; cbn;
    try discriminate; auto.
  unfold Ascii.compare.
  destruct (N.compare_spec (N_of_ascii x) (N_of_ascii y)) as [Exy|Lxy|Gxy],
           (N.compare_spec (N_of_ascii y) (N_of_ascii z)) as [Eyz|Lyz|Gyz],
           (N.compare_spec (N_of_ascii x) (N_of_ascii z)) as [Exz|Lxz|Gxz];
    try discriminate; try lia; auto.
  apply IH.
Qed.

Lemma string_leb_refl (a : string) : String.leb a a = true.
Proof. destruct (String.leb_total a a); assumption. Qed.

Lemma string_leb_trans (a b c : string) :
  String.leb a b = true -> String.leb b c = true -> String.leb a c = true.
Proof.
  unfold String.leb.
  destruct (String.compare a b) eqn:Eab; try discriminate;
    destruct (String.compare b c) eqn:Ebc; try discriminate; intros _ _.
  - apply String.compare_eq_iff in Eab, Ebc. subst.
    apply (string_leb_refl c).
  - apply String.compare_eq_iff in Eab. subst. now rewrite Ebc.
  - apply String.compare_eq_iff in Ebc. subst. now rewrite Eab.
  - now rewrite (string_compare_lt_trans a b c Eab Ebc).
Qed.

Section SortedFacts.

Context {A : Type} (key : A -> string).

Local Abbreviation kle := (key_le key).

Lemma key_le_trans : RelationClasses.Transitive kle.
Proof. intros x y z. apply string_leb_trans. Qed.

Lemma insert_perm (x : A) (l : list A) :
  Permutation (insert key x l) (x :: l).
Proof.
  induction l as [|y l IH]; cbn; [reflexivity|].
  destruct (String.leb (key x) (key y)); [reflexivity|].
  rewrite IH. apply perm_swap.
Qed.

Lemma sorted_perm (l : list A) : Permutation (sorted key l) l.
Proof.
  induction l as [|x l IH]; cbn; [reflexivity|].
  rewrite insert_perm. now constructor.
Qed.

Lemma insert_Sorted (x : A) (l : list A) :
  Sorted kle l -> Sorted kle (insert key x l).
Proof.
  induction 1 as [|y l Hl IH Hy]; cbn.
  - repeat constructor.
  - destruct (String.leb (key x) (key y)) eqn:E.
    + repeat constructor; assumption.
    + assert (Hyx : kle y x).
      { unfold key_le. destruct (String.leb_total (key x) (key y)); congruence. }
      constructor; [exact IH|].
      destruct Hy as [|z l Hyz]; cbn.
      * now constructor.
      * destruct (String.leb (key x) (key z)); now constructor.
Qed.

Lemma sorted_Sorted (l : list A) : Sorted kle (sorted key l).
Proof.
  induction l as [|x l IH]; cbn; [constructor|].
  now apply insert_Sorted.
Qed.

Lemma sorted_StronglySorted (l : list A) :
  StronglySorted kle (sorted key l).
Proof. apply Sorted_StronglySorted; [exact key_le_trans|apply sorted_Sorted]. Qed.


Lemma key_le_insert_head (x : A) (l : list A) :
  Forall (kle x) l -> insert key x l = x :: l.
Proof.
  intros H. destruct H as [|y l Hy _]; cbn; [reflexivity|].
  unfold key_le in Hy. now rewrite Hy.
Qed.

Lemma filter_insert (p : A -> bool) (x : A) (l : list A) :
  StronglySorted kle l ->
  filter p (insert key x l) =
    if p x then insert key x (filter p l) else filter p l.
Proof.
  induction 1 as [|y l Hl IH Hy]; cbn.
  - destruct (p x); reflexivity.
  - destruct (String.leb (key x) (key y)) eqn:E; cbn.
    + assert (Hf : Forall (kle x) (filter p (y :: l))).
      { apply Forall_forall. intros z Hz.
        apply filter_In in Hz as [[<-|Hz] _]; [exact E|].
        apply (key_le_trans x y z E).
        exact (proj1 (Forall_forall _ _) Hy z Hz). }
      cbn in Hf. destruct (p x); [|reflexivity].
      symmetry. now apply key_le_insert_head.
    + rewrite IH. destruct (p x), (p y); cbn; try rewrite E; reflexivity.
Qed.

Lemma filter_sorted (p : A -> bool) (l : list A) :
  filter p (sorted key l) = sorted key (filter p l).
Proof.
  induction l as [|x l IH]; cbn; [reflexivity|].
  rewrite filter_insert by apply sorted_StronglySorted.
  rewrite IH. destruct (p x); reflexivity.
Qed.



End SortedFacts.

(** ** find_images *)




(** Where no entry other than a regular file carries a supported suffix,
    the code and the specification agree. *)
Lemma find_images_regular_only (env : Env) (folder : string) :
  (forall entries f,
      stat env (expand env folder) = Dir entries ->
      In f entries -> supported f = true -> is_regular f = true) ->
  find_images env folder = discovery_spec env folder.
Proof.
  intros H. unfold find_images, discovery_spec.
  destruct (stat env (expand env folder)) as [| |entries]; try reflexivity.
  f_equal. rewrite filter_sorted. f_equal.
  apply filter_ext_in. intros f Hf.
  destruct (supported f) eqn:E.
  - now rewrite (H entries f eq_refl Hf E).
  - now rewrite andb_false_r.
Qed.

(** ** The grid arithmetic *)

Lemma ceil_sqrt_spec (n : Z) :
  1 <= n ->
  0 < ceil_sqrt n
  /\ (ceil_sqrt n - 1) * (ceil_sqrt n - 1) < n <= ceil_sqrt n * ceil_sqrt n.
Proof.
  intros Hn. unfold ceil_sqrt.
  pose proof (Z.sqrt_spec n ltac:(lia)) as Hs.
  pose proof (Z.sqrt_nonneg n) as H0.
  cbv zeta. set (s := Z.sqrt n) in *. unfold Z.succ in Hs.
  destruct (Z.eqb_spec (s * s) n) as [E|E].
  - assert (1 <= s) by nia. nia.
  - replace (s + 1 - 1) with s by lia. lia.
Qed.

Lemma ceil_div_spec (n c : Z) :
  0 < c -> (ceil_div n c - 1) * c < n <= ceil_div n c * c.
Proof.
  intros Hc. unfold ceil_div.
  pose proof (Z.div_mod n c ltac:(lia)) as Hd.
  pose proof (Z.mod_pos_bound n c Hc) as Hm.
  cbv zeta. destruct (Z.eqb_spec (n mod c) 0) as [E|E]; nia.
Qed.

(** The same two facts over the reals: [ceil_sqrt n] is the least integer
    not below the square root of [n], and [ceil_div n c] the least integer
    not below the quotient. *)
Lemma ceil_sqrt_real (n : Z) :
  1 <= n ->
  (IZR (ceil_sqrt n - 1) < sqrt (IZR n) <= IZR (ceil_sqrt n))%R.
Proof.
  intros Hn. destruct (ceil_sqrt_spec n Hn) as [Hpos [Hlo Hhi]].
  set (c := ceil_sqrt n) in *.
  assert (H0 : (0 <= IZR (c - 1))%R) by (apply IZR_le; lia).
  assert (H1 : (0 <= IZR c)%R) by (apply IZR_le; lia).
  split.
  - rewrite <- (sqrt_square (IZR (c - 1))) by exact H0.
    apply sqrt_lt_1_alt. split; [nra|].
    rewrite <- mult_IZR. now apply IZR_lt.
  - rewrite <- (sqrt_square (IZR c)) by exact H1.
    apply sqrt_le_1_alt. rewrite <- mult_IZR. now apply IZR_le.
Qed.

Lemma ceil_div_real (n c : Z) :
  0 < c ->
  (IZR (ceil_div n c - 1) < IZR n / IZR c <= IZR (ceil_div n c))%R.
Proof.
  intros Hc. destruct (ceil_div_spec n c Hc) as [Hlo Hhi].
  assert (Hc' : (0 < IZR c)%R) by now apply IZR_lt.
  apply IZR_lt in Hlo. apply IZR_le in Hhi.
  rewrite mult_IZR in Hlo, Hhi.
  split.
  - apply Rmult_lt_reg_r with (IZR c); [exact Hc'|].
    unfold Rdiv. rewrite Rmult_assoc, Rinv_l by lra. lra.
  - apply Rmult_le_reg_r with (IZR c); [exact Hc'|].
    unfold Rdiv. rewrite Rmult_assoc, Rinv_l by lra. lra.
Qed.

(** ** populate *)

Lemma take_all_nil (items : list cell) : take_all items = [].
Proof. induction items as [|c items IH]; [reflexivity|exact IH]. Qed.

Lemma fold_addWidget (env : Env) (side cols : Z) (l : list (Z * string))
  (self : WallPicker) :
  fold_left
    (fun self '(idx, imgpath) =>
       addWidget self (thumbnail env side imgpath) (idx / cols) (idx mod cols))
    l self
  = set_grid self (grid self ++ map (image_cell env side cols) l)%list.
Proof.
  revert self. induction l as [|[idx imgpath] l IH]; intros self; cbn.
  - rewrite app_nil_r. destruct self; reflexivity.
  - rewrite IH. unfold addWidget, set_grid; cbn.
    now rewrite <- app_assoc.
Qed.

Lemma populate_eq (env : Env) (self : WallPicker) :
  populate env self =
    set_grid (set_images self (find_images env (image_dir self)))
             (layout env self).
Proof.
  unfold populate, layout. cbv zeta. cbn [images set_images image_dir].
  destruct (Z.of_nat (List.length (find_images env (image_dir self))) =? 0).
  - unfold addWidget, clear_grid, set_grid; cbn.
    now rewrite take_all_nil.
  - rewrite fold_addWidget. unfold clear_grid, set_grid; cbn.
    now rewrite take_all_nil.
Qed.

Lemma enumerate_from_length {A : Type} (start : Z) (l : list A) :
  List.length (enumerate_from start l) = List.length l.
Proof.
  revert start. induction l as [|x l IH]; intros start; cbn; auto.
Qed.

Lemma enumerate_from_nth {A : Type} (start : Z) (l : list A) (i : nat)
  (ix : Z * A) :
  nth_error (enumerate_from start l) i = Some ix ->
  fst ix = start + Z.of_nat i /\ nth_error l i = Some (snd ix).
Proof.
  revert start i. induction l as [|x l IH]; intros start [|i] H; cbn in *;
    try discriminate.
  - injection H as <-. cbn. split; [lia|reflexivity].
  - apply IH in H as [H1 H2]. split; [lia|exact H2].
Qed.

(** C1. For every count N >= 1 the grid has cols = ceil(sqrt(N)) columns
    and rows = ceil(N / cols) rows, both as integers and over the reals;
    rows * cols >= N, fewer than cols cells stay empty, and cols >= rows.
    Among all near-square grids, those whose two sides differ by at most
    one, none that holds N cells has fewer cells than this one. *)
Theorem grid_near_square (n : Z) :
  1 <= n ->
  let cols := grid_cols n in
  let rows := grid_rows n in
  (IZR (cols - 1) < sqrt (IZR n) <= IZR cols)%R
  /\ (IZR (rows - 1) < IZR n / IZR cols <= IZR rows)%R
  /\ (cols - 1) * (cols - 1) < n <= cols * cols
  /\ (rows - 1) * cols < n <= rows * cols
  /\ rows * cols >= n
  /\ rows * cols - n < cols
  /\ cols >= rows
  /\ (forall r c : Z,
        0 < r -> 0 < c -> Z.abs (c - r) <= 1 -> n <= r * c ->
        rows * cols - n <= r * c - n).
Proof.
  intros Hn cols rows. unfold rows, cols, grid_rows, grid_cols.
  destruct (ceil_sqrt_spec n Hn) as [Hpos [Hlo Hhi]].
  pose proof (ceil_div_spec n (ceil_sqrt n) Hpos) as [Rlo Rhi].
  pose proof (ceil_sqrt_real n Hn) as HR1.
  pose proof (ceil_div_real n (ceil_sqrt n) Hpos) as HR2.
  set (k := ceil_sqrt n) in *. set (m := ceil_div n k) in *.
  assert (Hmk : m <= k) by nia.
  assert (Hkm : k - 1 <= m) by nia.
  repeat split; try lia; try tauto.
  intros r c Hr Hc Habs Hrc.
  assert (Hcase : m = k \/ m = k - 1) by lia.
  destruct Hcase as [->| ->].
  - (* k x k: more than (k-1)*k cells are needed *)
    assert (k <= r) by nia. assert (k <= c) by nia. nia.
  - (* (k-1) x k: more than (k-1)*(k-1) cells are needed *)
    assert (k - 1 <= r) by nia. assert (k - 1 <= c) by nia.
    assert (k <= r \/ k <= c) by nia. nia.
Qed.

Lemma grid_near_square_witness :
  1 <= 7
  /\ grid_rows 7 * grid_cols 7 >= 7
  /\ grid_rows 7 * grid_cols 7 - 7 < grid_cols 7
  /\ grid_cols 7 >= grid_rows 7.
Proof.
  assert (H7 : 1 <= 7) by lia.
  pose proof (grid_near_square 7 H7) as H. cbv zeta in H.
  split; [exact H7|]. repeat split; apply H.
Defined.

(** Without the near-square restriction the grid is not the tightest: seven
    images go on 3 x 3 cells, and 2 x 4 would leave one cell empty instead of
    two. *)
Lemma wider_grid_wastes_less :
  grid_rows 7 = 3 /\ grid_cols 7 = 3 /\ 7 <= 2 * 4 < grid_rows 7 * grid_cols 7.
Proof. repeat split; vm_compute; congruence. Qed.

Lemma grid_rows_pos (n : Z) : 1 <= n -> 0 < grid_cols n /\ 0 < grid_rows n.
Proof.
  intros Hn. unfold grid_rows, grid_cols.
  destruct (ceil_sqrt_spec n Hn) as [Hpos _].
  pose proof (ceil_div_spec n (ceil_sqrt n) Hpos). split; [exact Hpos|nia].
Qed.

Lemma thumb_side_fits (self : WallPicker) (rows cols : Z) :
  0 < rows -> 0 < cols ->
  thumb_side self rows cols * cols + (cols - 1) * spacing self
    <= available_w self
  /\ thumb_side self rows cols * rows + (rows - 1) * spacing self
    <= available_h self.
Proof.
  intros Hr Hc. unfold thumb_side, thumb_side_w, thumb_side_h.
  set (w := available_w self - (cols - 1) * spacing self).
  set (h := available_h self - (rows - 1) * spacing self).
  pose proof (Z.mul_div_le w cols Hc).
  pose proof (Z.mul_div_le h rows Hr).
  pose proof (Z.le_min_l (w / cols) (h / rows)).
  pose proof (Z.le_min_r (w / cols) (h / rows)).
  split; nia.
Qed.

(** C5. For a listing of N >= 1 images, every cell that [populate] puts in
    the grid is a button of one and the same fixed size side x side, with
    side = min((available_w - (cols-1)*spacing) div cols,
               (available_h - (rows-1)*spacing) div rows),
    and a full row and a full column of such cells with their spacing fit
    into the available width and height. *)
Theorem thumbnails_uniform_and_fit (env : Env) (self : WallPicker) :
  let n := Z.of_nat (List.length (find_images env (image_dir self))) in
  let cols := grid_cols n in
  let rows := grid_rows n in
  let side :=
    Z.min ((available_w self - (cols - 1) * spacing self) / cols)
          ((available_h self - (rows - 1) * spacing self) / rows) in
  1 <= n ->
  Z.of_nat (List.length (grid (populate env self))) = n
  /\ Forall (fun c => fixed_size (c_widget c) = Some (side, side))
            (grid (populate env self))
  /\ side * cols + (cols - 1) * spacing self <= available_w self
  /\ side * rows + (rows - 1) * spacing self <= available_h self.
Proof.
  intros n cols rows side Hn.
  rewrite populate_eq. cbn [grid set_grid]. unfold layout. cbv zeta.
  fold n. destruct (Z.eqb_spec n 0) as [E|_]; [lia|].
  destruct (grid_rows_pos n Hn) as [Hc Hr].
  split; [|split].
  - rewrite length_map. unfold enumerate.
    now rewrite enumerate_from_length.
  - apply Forall_forall. intros c Hin.
    apply in_map_iff in Hin as [ip [<- _]]. reflexivity.
  - exact (thumb_side_fits self rows cols Hr Hc).
Qed.

Lemma thumbnails_uniform_and_fit_witness :
  1 <= Z.of_nat (List.length (find_images desktop "/w"))
  /\ Forall (fun c => fixed_size (c_widget c) = Some (264, 264))
            (grid (init desktop 1920 1080 "/w")).
Proof.
  assert (H : 1 <= Z.of_nat (List.length (find_images desktop "/w")))
    by (vm_compute; discriminate).
  split; [exact H|].
  exact (proj1 (proj2
    (thumbnails_uniform_and_fit desktop
       {| width := 540; height := 540;
          contentsMargins :=
            {| left := 4; right := 4; top := 4; bottom := 4 |};
          spacing := 4; image_dir := "/w"; images := []; grid := [] |} H))).
Defined.

(** C6. When discovery finds nothing, [populate] leaves exactly one cell in
    the grid, at row 0 and column 0: a disabled button whose text is
    "No images found" and, on the next line, the folder.  It has no icon and
    no click handler, so no image cell exists. *)
Theorem empty_folder_placeholder (env : Env) (self : WallPicker) :
  find_images env (image_dir self) = [] ->
  grid (populate env self) =
    [ {| c_widget :=
           {| text := "No images found" ++ String "010"%char (image_dir self);
              enabled := false; tooltip := None; icon_size := None;
              fixed_size := None; clicked := None |};
         c_row := 0; c_col := 0 |} ]
  /\ images (populate env self) = [].
Proof.
  intros H. rewrite populate_eq. cbn [grid images set_grid set_images].
  unfold layout. rewrite H. split; reflexivity.
Qed.

Lemma empty_folder_placeholder_witness :
  find_images desktop "/nowhere" = []
  /\ List.length (grid (init desktop 1920 1080 "/nowhere")) = 1%nat
  /\ Forall (fun c => enabled (c_widget c) = false)
            (grid (init desktop 1920 1080 "/nowhere")).
Proof.
  assert (H : find_images desktop "/nowhere" = []) by reflexivity.
  split; [exact H|].
  unfold init.
  rewrite (proj1 (empty_folder_placeholder desktop
    {| width := Z.quot (Z.min 1920 1080) 2;
       height := Z.quot (Z.min 1920 1080) 2;
       contentsMargins := {| left := 4; right := 4; top := 4; bottom := 4 |};
       spacing := 4; image_dir := "/nowhere"; images := []; grid := [] |} H)).
  split; [reflexivity|repeat constructor].
Defined.

(** C8. Refreshing is idempotent and forgets the previous widgets: a second
    [refresh] against the same environment returns the very state the first
    one returned (same listing, same rows and columns, same thumbnail side,
    same cell for every image), and the outcome of a [refresh] does not
    depend on the listing and the grid the window held before. *)
Theorem refresh_idempotent (env : Env) (self : WallPicker) :
  refresh env (refresh env self) = refresh env self
  /\ (forall (old_images : list string) (old_grid : list cell),
        refresh env (set_grid (set_images self old_images) old_grid)
        = refresh env self)
  /\ grid (refresh env self) = layout env self.
Proof.
  unfold refresh. repeat split; intros; rewrite !populate_eq; reflexivity.
Qed.

(** X4. Row-major placement: the cell at position [i] of the grid shows image
    [i] of the listing, its click handler is bound to that path, and it sits
    at row [i div cols] and column [i mod cols], inside the rows x cols
    grid. *)
Lemma populate_cell_at (env : Env) (self : WallPicker) (i : nat) (c : cell) :
  let imgs := find_images env (image_dir self) in
  let n := Z.of_nat (List.length imgs) in
  1 <= n ->
  nth_error (grid (populate env self)) i = Some c ->
  clicked (c_widget c) = nth_error imgs i
  /\ c_row c = Z.of_nat i / grid_cols n
  /\ c_col c = Z.of_nat i mod grid_cols n
  /\ 0 <= c_row c < grid_rows n
  /\ 0 <= c_col c < grid_cols n.
Proof.
  intros imgs n Hn.
  rewrite populate_eq. cbn [grid set_grid]. unfold layout. cbv zeta.
  fold imgs. fold n. destruct (Z.eqb_spec n 0) as [E|_]; [lia|].
  rewrite nth_error_map.
  destruct (nth_error (enumerate imgs) i) as [ip|] eqn:Hi; [|discriminate].
  intros H. injection H as <-.
  apply enumerate_from_nth in Hi as [Hidx Himg]. cbn [image_cell c_row c_col
    c_widget thumbnail clicked].
  rewrite Hidx, Himg. replace (0 + Z.of_nat i) with (Z.of_nat i) by lia.
  destruct (grid_rows_pos n Hn) as [Hc Hr].
  assert (Hlt : Z.of_nat i < n).
  { unfold n. apply inj_lt. apply nth_error_Some. congruence. }
  pose proof (ceil_div_spec n (grid_cols n) Hc) as [_ Hfit].
  fold (grid_rows n) in Hfit.
  repeat split; try reflexivity.
  - apply Z.div_pos; lia.
  - apply Z.div_lt_upper_bound; [exact Hc|nia].
  - apply Z.mod_pos_bound; exact Hc.
  - apply Z.mod_pos_bound; exact Hc.
Qed.

(** * Further properties of the grid arithmetic *)

Lemma grid_bounds (n : Z) :
  1 <= n ->
  0 < grid_cols n /\ 0 < grid_rows n
  /\ (grid_cols n - 1) * (grid_cols n - 1) < n <= grid_cols n * grid_cols n
  /\ (grid_rows n - 1) * grid_cols n < n <= grid_rows n * grid_cols n
  /\ grid_cols n - 1 <= grid_rows n <= grid_cols n.
Proof.
  intros Hn. unfold grid_rows, grid_cols.
  destruct (ceil_sqrt_spec n Hn) as [Hpos [Hlo Hhi]].
  pose proof (ceil_div_spec n (ceil_sqrt n) Hpos) as [Rlo Rhi].
  set (k := ceil_sqrt n) in *. set (m := ceil_div n k) in *.
  assert (m <= k) by nia. assert (k - 1 <= m) by nia.
  repeat split; try lia; nia.
Qed.

Lemma ceil_sqrt_unique (n c : Z) :
  0 < c -> (c - 1) * (c - 1) < n <= c * c -> ceil_sqrt n = c.
Proof.
  intros Hc [Hlo Hhi].
  assert (Hn : 1 <= n) by nia.
  destruct (ceil_sqrt_spec n Hn) as [Hpos [Klo Khi]].
  set (k := ceil_sqrt n) in *.
  assert (k <= c) by nia. assert (c <= k) by nia. lia.
Qed.

Lemma ceil_div_unique (n c r : Z) :
  0 < c -> (r - 1) * c < n <= r * c -> ceil_div n c = r.
Proof.
  intros Hc [Hlo Hhi].
  destruct (ceil_div_spec n c Hc) as [Klo Khi].
  set (k := ceil_div n c) in *.
  assert (k <= r) by nia. assert (r <= k) by nia. lia.
Qed.

(** X1. The grid has no empty cell exactly when the count is a square k*k
    (a k x k grid) or a product k*(k+1) of consecutive numbers (k rows of
    k+1). *)
Theorem grid_full_iff (n : Z) :
  1 <= n ->
  (grid_rows n * grid_cols n = n
   <-> exists k : Z, 0 < k /\ (n = k * k \/ n = k * (k + 1))).
Proof.
  intros Hn. pose proof (grid_bounds n Hn) as (Hc & Hr & Hsq & Hdiv & Hnear).
  split.
  - intros Hfull.
    assert (Hcase : grid_rows n = grid_cols n
                    \/ grid_rows n = grid_cols n - 1) by lia.
    destruct Hcase as [E|E].
    + exists (grid_cols n). split; [exact Hc|]. left. rewrite E in Hfull. lia.
    + exists (grid_rows n). split; [exact Hr|]. right.
      replace (grid_rows n + 1) with (grid_cols n) by lia. lia.
  - intros [k [Hk [E|E]]].
    + assert (Ec : grid_cols n = k).
      { unfold grid_cols. apply ceil_sqrt_unique; [exact Hk|nia]. }
      assert (Er : grid_rows n = k).
      { unfold grid_rows. rewrite Ec. apply ceil_div_unique; [exact Hk|nia]. }
      rewrite Ec, Er. lia.
    + assert (Ec : grid_cols n = k + 1).
      { unfold grid_cols. apply ceil_sqrt_unique; [lia|nia]. }
      assert (Er : grid_rows n = k).
      { unfold grid_rows. rewrite Ec. apply ceil_div_unique; [lia|nia]. }
      rewrite Ec, Er. lia.
Qed.

Lemma grid_full_iff_witness :
  1 <= 12 /\ grid_rows 12 * grid_cols 12 = 12.
Proof.
  assert (H : 1 <= 12) by lia.
  split; [exact H|].
  apply (proj2 (grid_full_iff 12 H)).
  exists 3. split; [lia|right; reflexivity].
Defined.

(** * Further properties of the thumbnail side *)

Lemma quotient_pos_iff (w c : Z) : 0 < c -> (0 < w / c <-> c <= w).
Proof.
  intros Hc. split; intros H.
  - pose proof (Z.mul_div_le w c Hc). nia.
  - assert (1 <= w / c); [|lia].
    apply Z.div_le_lower_bound; lia.
Qed.

(** X2. The thumbnail side is the largest that fits: for N >= 1, any side
    [s] for which a row of cols cells and a column of rows cells with their
    spacing fit the available area is at most the side [populate] uses. *)
Theorem thumb_side_largest (self : WallPicker) (n s : Z) :
  1 <= n ->
  s * grid_cols n + (grid_cols n - 1) * spacing self <= available_w self ->
  s * grid_rows n + (grid_rows n - 1) * spacing self <= available_h self ->
  s <= thumb_side self (grid_rows n) (grid_cols n).
Proof.
  intros Hn Hw Hh. destruct (grid_rows_pos n Hn) as [Hc Hr].
  unfold thumb_side, thumb_side_w, thumb_side_h.
  apply Z.min_glb; apply Z.div_le_lower_bound; lia.
Qed.

(** X3. The thumbnails have a positive side exactly when the available
    width holds cols cells of one pixel with their spacing and the available
    height holds rows such cells; with more images than that the side is
    zero or negative. *)
Theorem thumb_side_positive_iff (self : WallPicker) (n : Z) :
  1 <= n ->
  (0 < thumb_side self (grid_rows n) (grid_cols n)
   <-> grid_cols n + (grid_cols n - 1) * spacing self <= available_w self
       /\ grid_rows n + (grid_rows n - 1) * spacing self <= available_h self).
Proof.
  intros Hn. destruct (grid_rows_pos n Hn) as [Hc Hr].
  unfold thumb_side, thumb_side_w, thumb_side_h.
  rewrite Z.min_glb_lt_iff, !quotient_pos_iff by assumption.
  split; intros [H1 H2]; split; lia.
Qed.

Lemma init_fresh (env : Env) (sw sh : Z) (dir : string) :
  init env sw sh dir = populate env (fresh_window sw sh dir).
Proof. reflexivity. Qed.

Lemma thumb_side_largest_witness :
  1 <= 2
  /\ 200 * grid_cols 2 + (grid_cols 2 - 1) * 4 <= 532
  /\ 200 * grid_rows 2 + (grid_rows 2 - 1) * 4 <= 532
  /\ 200 <= thumb_side (fresh_window 1920 1080 "/w") (grid_rows 2) (grid_cols 2).
Proof.
  assert (H1 : 1 <= 2) by lia.
  assert (H2 : 200 * grid_cols 2
               + (grid_cols 2 - 1) * spacing (fresh_window 1920 1080 "/w")
               <= available_w (fresh_window 1920 1080 "/w"))
    by (vm_compute; discriminate).
  assert (H3 : 200 * grid_rows 2
               + (grid_rows 2 - 1) * spacing (fresh_window 1920 1080 "/w")
               <= available_h (fresh_window 1920 1080 "/w"))
    by (vm_compute; discriminate).
  split; [exact H1|split; [exact H2|split; [exact H3|]]].
  exact (thumb_side_largest (fresh_window 1920 1080 "/w") 2 200 H1 H2 H3).
Defined.

Lemma thumb_side_positive_iff_witness :
  1 <= 2 /\ 0 < thumb_side (fresh_window 1920 1080 "/w")
                           (grid_rows 2) (grid_cols 2).
Proof.
  assert (H1 : 1 <= 2) by lia.
  split; [exact H1|].
  apply (proj2 (thumb_side_positive_iff (fresh_window 1920 1080 "/w") 2 H1)).
  split; vm_compute; discriminate.
Defined.

(** * Further properties of populate and __init__ *)

Lemma populate_keeps_geometry (env : Env) (self : WallPicker) :
  width (populate env self) = width self
  /\ height (populate env self) = height self
  /\ contentsMargins (populate env self) = contentsMargins self
  /\ spacing (populate env self) = spacing self.
Proof. rewrite populate_eq. repeat split. Qed.

(** X5. On a screen of non-negative size [__init__] makes the window
    square with side half the smaller screen dimension, rounded down, gives
    the grid margins and spacing of 4, and moves the window to a place where
    it lies on the screen, centred up to one pixel. *)
Theorem init_window (env : Env) (sw sh : Z) (dir : string) :
  0 <= sw -> 0 <= sh ->
  let w := init env sw sh dir in
  let x := self_center_x sw (width w) in
  let y := self_center_y sh (height w) in
  width w = Z.min sw sh / 2
  /\ height w = width w
  /\ spacing w = 4
  /\ available_w w = width w - 8 /\ available_h w = height w - 8
  /\ 0 <= x /\ x + width w <= sw /\ 0 <= (sw - (x + width w)) - x <= 1
  /\ 0 <= y /\ y + height w <= sh /\ 0 <= (sh - (y + height w)) - y <= 1.
Proof.
  intros Hw Hh w x y. subst x y w.
  rewrite init_fresh.
  destruct (populate_keeps_geometry env (fresh_window sw sh dir))
    as (Ew & Eh & Em & Es).
  unfold available_w, available_h, self_center_x, self_center_y.
  rewrite Ew, Eh, Em, Es. cbn.
  rewrite Z.quot_div_nonneg by lia.
  set (side := Z.min sw sh / 2).
  assert (Hside : 0 <= side <= Z.min sw sh).
  { unfold side. split; [apply Z.div_pos; lia|].
    apply Z.div_le_upper_bound; lia. }
  pose proof (Z.div_mod (sw - side) 2 ltac:(lia)).
  pose proof (Z.mod_pos_bound (sw - side) 2 ltac:(lia)).
  pose proof (Z.div_mod (sh - side) 2 ltac:(lia)).
  pose proof (Z.mod_pos_bound (sh - side) 2 ltac:(lia)).
  repeat split; lia.
Qed.

(** * Further properties of find_images *)

Lemma str_length_app (a b : string) :
  String.length (a ++ b) = (String.length a + String.length b)%nat.
Proof. induction a as [|c a IH]; cbn; [reflexivity|now rewrite IH]. Qed.

Lemma substring_all (s : string) : substring 0 (String.length s) s = s.
Proof. induction s as [|c s IH]; cbn; [reflexivity|now rewrite IH]. Qed.

Lemma substring_app_skip (a b : string) (m : nat) :
  substring (String.length a) m (a ++ b) = substring 0 m b.
Proof. induction a as [|c a IH]; cbn; [reflexivity|exact IH]. Qed.

Lemma substring_split (s : string) (i : nat) :
  (i <= String.length s)%nat ->
  s = substring 0 i s ++ substring i (String.length s - i) s
  /\ String.length (substring 0 i s) = i.
Proof.
  revert i. induction s as [|c s IH]; intros [|i] Hi; cbn in *; try lia.
  - split; reflexivity.
  - rewrite substring_all. split; reflexivity.
  - destruct (IH i ltac:(lia)) as [E L]. split.
    + cbn. now rewrite <- E.
    + cbn. now rewrite L.
Qed.

Lemma rfind_absent (ch : ascii) (s : string) :
  mem_ascii ch s = false -> rfind ch s = None.
Proof.
  induction s as [|c s IH]; cbn; [reflexivity|].
  intros H. apply orb_false_iff in H as [H1 H2].
  rewrite (IH H2), Ascii.eqb_sym, H1. reflexivity.
Qed.

Lemma rfind_app (ch : ascii) (a b : string) :
  rfind ch (a ++ b) =
    match rfind ch b with
    | Some i => Some (String.length a + i)%nat
    | None => rfind ch a
    end.
Proof.
  induction a as [|c a IH]; cbn.
  - destruct (rfind ch b); reflexivity.
  - rewrite IH. destruct (rfind ch b), (rfind ch a); reflexivity.
Qed.

Section SortedUnique.

Context {A : Type} (key : A -> string).

Lemma sorted_lists_equal (l1 l2 : list A) :
  StronglySorted (key_le key) l1 -> StronglySorted (key_le key) l2 ->
  Permutation l1 l2 -> NoDup (map key l1) -> l1 = l2.
Proof.
  intros H1. revert l2.
  induction H1 as [|x l1 Hl1 IH Hx]; intros l2 H2 HP HN.
  - apply Permutation_nil in HP. now subst.
  - destruct H2 as [|y l2 Hl2 Hy].
    + apply Permutation_sym, Permutation_nil in HP. discriminate.
    + assert (Exy : x = y).
      { assert (Hxin : In x (y :: l2))
          by (apply (Permutation_in _ HP); now left).
        assert (Hyin : In y (x :: l1))
          by (apply (Permutation_in _ (Permutation_sym HP)); now left).
        destruct Hxin as [E|Hxin]; [now symmetry|].
        destruct Hyin as [E|Hyin]; [exact E|].
        exfalso.
        pose proof (proj1 (Forall_forall _ _) Hy x Hxin) as Lyx.
        pose proof (proj1 (Forall_forall _ _) Hx y Hyin) as Lxy.
        unfold key_le in Lyx, Lxy.
        pose proof (String.leb_antisym _ _ Lxy Lyx) as Ek.
        cbn in HN. inversion HN as [|k ks Hnotin _]; subst.
        apply Hnotin. rewrite Ek. now apply in_map. }
      subst y. f_equal.
      apply IH; [exact Hl2| |now inversion HN].
      now apply Permutation_cons_inv in HP.
Qed.

Lemma sorted_order_independent (l1 l2 : list A) :
  Permutation l1 l2 -> NoDup (map key l1) ->
  sorted key l1 = sorted key l2.
Proof.
  intros HP HN. apply sorted_lists_equal.
  - apply sorted_StronglySorted.
  - apply sorted_StronglySorted.
  - rewrite !sorted_perm. exact HP.
  - apply (Permutation_NoDup (l := map key l1)); [|exact HN].
    apply Permutation_map, Permutation_sym, sorted_perm.
Qed.

End SortedUnique.

(** X6. The listing does not depend on the order in which the directory
    yields its entries: two file systems that hold the same entries under
    the folder, with no name twice, give the same list of images. *)
Theorem find_images_order_independent
  (env env' : Env) (folder : string) (entries entries' : list dirent) :
  expand env' folder = expand env folder ->
  stat env (expand env folder) = Dir entries ->
  stat env' (expand env folder) = Dir entries' ->
  Permutation entries entries' ->
  NoDup (map d_name entries) ->
  find_images env folder = find_images env' folder.
Proof.
  intros He Hs Hs' HP HN. unfold find_images.
  rewrite He, Hs, Hs'.
  now rewrite (sorted_order_independent d_name entries entries' HP HN).
Qed.

Lemma ascii_lower_dot (c : ascii) :
  Ascii.eqb "." (ascii_lower c) = Ascii.eqb "." c.
Proof. destruct c as [[] [] [] [] [] [] [] []]; reflexivity. Qed.

Lemma lower_mem_dot (s : string) :
  mem_ascii "." (lower s) = mem_ascii "." s.
Proof.
  unfold lower. induction s as [|c s IH]; cbn [map_string mem_ascii];
    [reflexivity|].
  now rewrite IH, ascii_lower_dot.
Qed.

Lemma lower_length (s : string) : String.length (lower s) = String.length s.
Proof.
  unfold lower. induction s as [|c s IH]; cbn; [reflexivity|now rewrite IH].
Qed.

Lemma str_in_In (s : string) (l : list string) :
  str_in s l = true <-> In s l.
Proof.
  unfold str_in. rewrite existsb_exists. split.
  - intros [x [Hx E]]. apply String.eqb_eq in E. now subst.
  - intros H. exists s. split; [exact H|apply String.eqb_refl].
Qed.

(** What the six extensions have in common. *)
Lemma supported_ext_shape (ext : string) :
  In (lower ext) SUPPORTED_EXTS ->
  exists rest : string,
    ext = String "." rest /\ mem_ascii "." rest = false
    /\ (1 <= String.length rest)%nat.
Proof.
  intros H.
  assert (Hshape : exists r', lower ext = String "." r'
                              /\ mem_ascii "." r' = false
                              /\ (1 <= String.length r')%nat).
  { cbn in H.
    destruct H as [H|[H|[H|[H|[H|[H|[]]]]]]]; rewrite <- H;
      eexists; (split; [reflexivity|split; [reflexivity|cbn; lia]]). }
  destruct Hshape as [r' [E [Hm Hl]]].
  destruct ext as [|c rest]; [discriminate|].
  unfold lower in E. cbn in E. injection E as Ec Er.
  fold (lower rest) in Er.
  assert (c = "."%char).
  { pose proof (ascii_lower_dot c) as D. rewrite Ec in D.
    rewrite Ascii.eqb_refl in D.
    symmetry in D. apply Ascii.eqb_eq in D. now symmetry. }
  subst c. exists rest. split; [reflexivity|].
  rewrite <- Er in Hm, Hl. rewrite lower_mem_dot in Hm.
  rewrite lower_length in Hl. split; assumption.
Qed.

(** X7. A name passes the extension filter exactly when it is a non-empty
    stem followed by one of .jpg .jpeg .png .webp .bmp .gif in any letter
    case; a name that is only an extension, like .png, does not pass. *)
Theorem supported_name_iff (name : string) :
  supported_name name = true
  <-> exists stem ext : string,
        name = stem ++ ext /\ stem <> ""
        /\ In (lower ext) SUPPORTED_EXTS.
Proof.
  unfold supported_name. rewrite str_in_In. split.
  - intros H. unfold suffix in H.
    destruct (rfind "." name) as [i|] eqn:Hr;
      [|cbn in H; intuition discriminate].
    destruct ((0 <? i) && (i <? String.length name - 1))%nat eqn:Hc;
      [|cbn in H; intuition discriminate].
    apply andb_true_iff in Hc as [H0 H1].
    apply Nat.ltb_lt in H0, H1.
    destruct (substring_split name i ltac:(lia)) as [E L].
    exists (substring 0 i name), (substring i (String.length name - i) name).
    split; [exact E|]. split; [|exact H].
    intros Hempty. rewrite Hempty in L. cbn in L. lia.
  - intros (stem & ext & -> & Hstem & Hin).
    destruct (supported_ext_shape ext Hin) as (rest & -> & Hm & Hl).
    assert (Hs : (0 < String.length stem)%nat)
      by (destruct stem; [contradiction|cbn; lia]).
    assert (Hr : rfind "." (String "." rest) = Some 0%nat)
      by (cbn [rfind]; rewrite (rfind_absent _ _ Hm); reflexivity).
    assert (Hsuf : suffix (stem ++ String "." rest) = String "." rest).
    { unfold suffix. rewrite rfind_app, Hr, Nat.add_0_r, str_length_app.
      change (String.length (String "." rest)) with (S (String.length rest)).
      assert (Hc : ((0 <? String.length stem)
                    && (String.length stem
                        <? String.length stem + S (String.length rest) - 1))%nat
                   = true)
        by (apply andb_true_iff; split; apply Nat.ltb_lt; lia).
      rewrite Hc, substring_app_skip.
      replace (String.length stem + S (String.length rest)
               - String.length stem)%nat
        with (String.length (String "." rest)) by (cbn; lia).
      apply substring_all. }
    rewrite Hsuf. exact Hin.
Qed.

(** * Further properties of the external steps *)

Lemma tried_cases (ok : argv -> bool) (l : list argv) :
  if existsb ok l
  then exists earlier last,
         tried ok l = (earlier ++ [last])%list /\ ok last = true
         /\ Forall (fun cmd => ok cmd = false) earlier
  else tried ok l = l /\ Forall (fun cmd => ok cmd = false) l.
Proof.
  induction l as [|cmd l IH]; cbn.
  - split; constructor.
  - destruct (ok cmd) eqn:E; cbn.
    + exists [], cmd. repeat split; [exact E|constructor].
    + destruct (existsb ok l).
      * destruct IH as (earlier & last & Et & Hl & He).
        exists (cmd :: earlier), last. rewrite Et. repeat split; auto.
      * destruct IH as [Et He]. rewrite Et. split; auto.
Qed.

(** X8. The wallpaper is set by at most one backend.  When
    [set_wallpaper_wayland] returns [True], the last command it ran is the
    only one that succeeded; when it returns [False], it ran all four
    backends and every one failed. *)
Theorem wallpaper_set_once (env : Env) (image_path : string) (t : list event) :
  exists (b : bool) (ran : list argv),
    set_wallpaper_wayland env image_path t = (Ok b, (t ++ map Run ran)%list)
    /\ if b
       then exists earlier last,
              ran = (earlier ++ [last])%list /\ succeeds env last = true
              /\ Forall (fun cmd => succeeds env cmd = false) earlier
       else ran = backends image_path
            /\ Forall (fun cmd => succeeds env cmd = false) ran.
Proof.
  exists (existsb (succeeds env) (backends image_path)),
         (tried (succeeds env) (backends image_path)).
  split; [apply set_wallpaper_wayland_eq|].
  pose proof (tried_cases (succeeds env) (backends image_path)) as H.
  destruct (existsb (succeeds env) (backends image_path)); [exact H|].
  destruct H as [E F]. rewrite E. split; [reflexivity|exact F].
Qed.

(** X9. What the accent-colour step reports.  An absent palette file is
    passed over without a line.  A file that does not load, or that holds no
    colour in the slot, gives exactly one printed line with the exception.
    Once the colour is found, a hyprctl that cannot be launched gives one
    printed line too, while a hyprctl that exits with any status, zero or
    not, gives none. *)
Theorem border_step_prints (env : Env) (t : list event) :
  exists t' : list event,
    set_hyprland_border_from_wal env t = (Ok tt, (t ++ t')%list)
    /\ match palette env with
       | Absent => t' = []
       | Unloadable e => t' = [Print border_message (Some e)]
       | Loaded doc =>
           match slot_value (Loaded doc) with
           | None => exists e, t' = [Print border_message (Some e)]
           | Some s =>
               let cmd := hyprctl ("0x" ++ upper (lstrip "#" s)) in
               match proc env cmd with
               | NotFound =>
                   t' = [Run cmd; Print border_message (Some FileNotFoundError)]
               | NotExecutable =>
                   t' = [Run cmd; Print border_message (Some PermissionError)]
               | Exited _ => t' = [Run cmd]
               end
           end
       end.
Proof.
  unfold set_hyprland_border_from_wal, palette_exists, load_palette,
    slot_value, border_message.
  destruct (palette env) as [|e|doc]; cbn.
  - exists []. now rewrite app_nil_r.
  - eexists; split; reflexivity.
  - unfold try_except, bind, subscript.
    destruct doc as [| | | | | |top];
      try (eexists; split; [reflexivity|eexists; reflexivity]).
    cbn. destruct (assoc "colors" top) as [colors|];
      [|eexists; split; [reflexivity|eexists; reflexivity]].
    cbn. destruct colors as [| | | | | |colors];
      try (eexists; split; [reflexivity|eexists; reflexivity]).
    cbn. destruct (assoc BORDER_COLOR colors) as [slot|];
      [|eexists; split; [reflexivity|eexists; reflexivity]].
    cbn. destruct slot as [| | | |s| |];
      try (eexists; split; [reflexivity|eexists; reflexivity]).
    cbn. unfold subprocess_run, bind, emit.
    destruct (proc env _) as [| |code]; cbn;
      eexists; (split; [rewrite <- ?app_assoc; reflexivity|reflexivity]).
Qed.

(** ** on_select, step by step *)

Lemma Popen_eq (env : Env) (cmd : argv) (t : list event) :
  Popen env cmd t =
    (match proc env cmd with
     | NotFound => Raise FileNotFoundError
     | NotExecutable => Raise PermissionError
     | Exited _ => Ok tt
     end, (t ++ [Spawn cmd])%list).
Proof.
  unfold Popen, bind, emit. destruct (proc env cmd); reflexivity.
Qed.

(** X10. When [on_select] lets an exception out.  It returns normally
    exactly when wal can be launched and neither walcord nor spicetify is
    present-but-not-executable.  [FileNotFoundError] leaves it only for a
    missing wal, [PermissionError] only for a wal, walcord or spicetify that
    cannot be executed; nothing the wallpaper backends, the palette file or
    hyprctl do makes it raise. *)
Theorem on_select_result (env : Env) (path : string) (t : list event) :
  match fst (on_select env path t) with
  | Ok _ =>
      spawns env ["wal"; "-i"; path] = true
      /\ proc env ["walcord"] <> NotExecutable
      /\ proc env ["spicetify"; "apply"] <> NotExecutable
  | Raise e =>
      (e = FileNotFoundError /\ proc env ["wal"; "-i"; path] = NotFound)
      \/ (e = PermissionError
          /\ (proc env ["wal"; "-i"; path] = NotExecutable
              \/ proc env ["walcord"] = NotExecutable
              \/ proc env ["spicetify"; "apply"] = NotExecutable))
  end.
Proof.
  unfold spawns, on_select, bind, try_except. rewrite Popen_eq.
  destruct (proc env ["wal"; "-i"; path]) as [| |c0] eqn:Hwal; cbn [fst];
    [left; split; reflexivity|right; split; [reflexivity|now left]|].
  rewrite Popen_eq.
  set (t1 := ((t ++ [Spawn ["wal"; "-i"; path]]) ++ [Spawn ["walcord"]])%list).
  destruct (proc env ["walcord"]) as [| |c1] eqn:Hcord;
    cbn [is_FileNotFoundError ret fst];
    [|right; split; [reflexivity|right; now left]|];
    rewrite set_wallpaper_wayland_eq;
    destruct (border_step_eq env
                (t1 ++ map Run (tried (succeeds env) (backends path)))%list)
      as [tb [Eb _]];
    rewrite Eb, Popen_eq;
    (destruct (proc env ["spicetify"; "apply"]) as [| |c2] eqn:Hspice;
       cbn [is_FileNotFoundError fst emit];
       [repeat split; congruence
       |right; split; [reflexivity|right; now right]
       |repeat split; congruence]).
Qed.

(** * Instances of the properties above *)

Lemma populate_cell_at_witness :
  1 <= Z.of_nat (List.length (find_images desktop "/w"))
  /\ nth_error (grid (populate desktop (fresh_window 1920 1080 "/w"))) 1
     = Some (image_cell desktop 264 2 (1, "/w/b.png"))
  /\ clicked (thumbnail desktop 264 "/w/b.png") = Some "/w/b.png"
  /\ c_row (image_cell desktop 264 2 (1, "/w/b.png")) = 0
  /\ c_col (image_cell desktop 264 2 (1, "/w/b.png")) = 1.
Proof.
  assert (H1 : 1 <= Z.of_nat (List.length (find_images desktop "/w")))
    by (vm_compute; discriminate).
  assert (H2 : nth_error (grid (populate desktop
                                  (fresh_window 1920 1080 "/w"))) 1
               = Some (image_cell desktop 264 2 (1, "/w/b.png")))
    by reflexivity.
  pose proof (populate_cell_at desktop (fresh_window 1920 1080 "/w") 1
                (image_cell desktop 264 2 (1, "/w/b.png")) H1 H2)
    as (Hc & Hrow & Hcol & _).
  split; [exact H1|split; [exact H2|split; [exact Hc|]]].
  split; [exact Hrow|exact Hcol].
Defined.

Lemma init_window_witness :
  0 <= 1920 /\ 0 <= 1080
  /\ width (init desktop 1920 1080 "/w") = 540
  /\ height (init desktop 1920 1080 "/w") = 540
  /\ self_center_x 1920 540 = 690 /\ self_center_y 1080 540 = 270.
Proof.
  assert (H1 : 0 <= 1920) by lia. assert (H2 : 0 <= 1080) by lia.
  pose proof (init_window desktop 1920 1080 "/w" H1 H2) as H.
  cbv zeta in H. destruct H as (Hw & Hh & _).
  split; [exact H1|split; [exact H2|]].
  split; [exact Hw|]. split; [rewrite Hh; exact Hw|].
  split; reflexivity.
Defined.

Lemma three_files_NoDup : NoDup (map d_name three_files).
Proof. repeat constructor; cbn; intuition discriminate. Qed.

Lemma find_images_order_independent_witness :
  Permutation three_files three_files_swapped
  /\ NoDup (map d_name three_files)
  /\ find_images (with_listing three_files desktop) "/w"
     = find_images (with_listing three_files_swapped desktop) "/w".
Proof.
  assert (HP : Permutation three_files three_files_swapped)
    by apply perm_swap.
  split; [exact HP|split; [exact three_files_NoDup|]].
  exact (find_images_order_independent
           (with_listing three_files desktop)
           (with_listing three_files_swapped desktop)
           "/w" three_files three_files_swapped
           eq_refl eq_refl eq_refl HP three_files_NoDup).
Defined.
